(** * Newton-Raphson root finder: a shallow embedding of
    [metodo_newton_raphson.py] and the properties of its iteration loop.

    Python's [float] is IEEE 754 binary64, which is what Rocq's primitive
    [float] is, so the arithmetic of [newton_raphson] is modelled bit for bit:
    subtraction, division, [abs] and [<] are the primitive operations.  The
    two callables are total functions [float -> float] (the caller's promise
    that they are defined wherever the loop evaluates them). *)

From Stdlib Require Import ZArith List Bool Floats Lia.
Import ListNotations.

Set Warnings "-inexact-float".
Local Open Scope float_scope.

(** ** The fragment of the Python runtime the loop relies on *)

Module Py.

(** The only exception the loop's arithmetic can raise. *)
Inductive exn : Type := ZeroDivisionError.

(** [a / b] on two Python floats: a divisor that compares equal to zero
    (either signed zero) raises, anything else is the IEEE quotient. *)
Definition truediv (a b : float) : exn + float :=
  if b =? 0 then inl ZeroDivisionError else inr (a / b).

(** [len(range(n))]: a non-positive bound gives the empty range. *)
Definition range_len (n : Z) : nat := Z.to_nat n.

End Py.

(** ** Data *)

(** One entry of [iteraciones]: the tuple [(i+1, x, f_x, error)]. *)
Definition registro : Type := (Z * float * float * float)%type.

Definition reg_iter (r : registro) : Z := let '(k, _, _, _) := r in k.
Definition reg_x (r : registro) : float := let '(_, x, _, _) := r in x.
Definition reg_fx (r : registro) : float := let '(_, _, fx, _) := r in fx.
Definition reg_error (r : registro) : float := let '(_, _, _, e) := r in e.

(** The two lines [newton_raphson] may print, each just before returning. *)
Inductive aviso : Type :=
| DerivadaCercanaACero   (* "Derivada cercana a cero. El metodo puede diverger." *)
| MaximoDeIteraciones.   (* "Se alcanzo el numero maximo de iteraciones sin convergencia." *)

(** What a call does: it returns the triple [(x, iteraciones, convergencia)]
    or it raises. *)
Inductive outcome : Type :=
| Returns (x : float) (iteraciones : list registro) (convergencia : bool)
| Raises (e : Py.exn).

(** A run: the outcome together with what was printed. *)
Definition run : Type := (outcome * list aviso)%type.

(** The literal [1e-10] of the derivative guard. *)
Definition DERIVADA_MINIMA : float := 1e-10.

(** ** The function *)

(** The body of [for i in range(max_iter)], with the statements after the
    loop as the case of an exhausted range.  [restantes] counts the values of
    [range(max_iter)] still to come, [i] is the loop variable. *)
Fixpoint for_loop (f_expr df_expr : float -> float) (tol : float)
    (restantes : nat) (i : Z) (x : float) (iteraciones : list registro) : run :=
  match restantes with
  | O => (Returns x iteraciones false, [MaximoDeIteraciones])
  | S restantes' =>
      let f_x := f_expr x in
      let df_x := df_expr x in
      if abs df_x <? DERIVADA_MINIMA then
        (Returns x iteraciones false, [DerivadaCercanaACero])
      else
        match Py.truediv f_x df_x with
        | inl e => (Raises e, [])
        | inr q =>
            let x_next := x - q in
            let error := abs (x_next - x) in
            let iteraciones := iteraciones ++ [((i + 1)%Z, x, f_x, error)] in
            let x := x_next in
            if error <? tol then (Returns x iteraciones true, [])
            else for_loop f_expr df_expr tol restantes' (i + 1)%Z x iteraciones
        end
  end.

Definition newton_raphson (f_expr df_expr : float -> float) (x0 : float)
    (tol : float) (max_iter : Z) : run :=
  for_loop f_expr df_expr tol (Py.range_len max_iter) 0%Z x0 [].

(** ** The iteration, as the specification words it *)

Section Iterates.

Variables (f df : float -> float) (x0 tol : float).

(** Newton-Raphson step: x_next = x - f(x)/f'(x). *)
Definition newton_step (x : float) : float := x - f x / df x.

(** The k-th iterate, [iterate 0 = x0]. *)
Definition iterate (k : nat) : float := Nat.iter k newton_step x0.

(** The record of pass [k] (0-based): 1-based index, the iterate before the
    update, the function there, and the size of the step taken. *)
Definition registro_de (k : nat) : registro :=
  ((Z.of_nat k + 1)%Z, iterate k, f (iterate k),
   abs (iterate (S k) - iterate k)).

(** The first [m] records. *)
Definition traza (m : nat) : list registro := map registro_de (seq 0 m).

(** Pass [k] gets past the derivative guard. *)
Definition pasa (k : nat) : Prop :=
  (abs (df (iterate k)) <? DERIVADA_MINIMA) = false.

(** Pass [k] completes and the loop goes on to pass [k+1]. *)
Definition sigue (k : nat) : Prop :=
  pasa k /\ (reg_error (registro_de k) <? tol) = false.

(** The three ways a call ends, in terms of the iterates. *)
Inductive termina (n : nat) : run -> Prop :=
| termina_derivada k :
    (k < n)%nat -> (forall j, (j < k)%nat -> sigue j) ->
    (abs (df (iterate k)) <? DERIVADA_MINIMA) = true ->
    termina n (Returns (iterate k) (traza k) false, [DerivadaCercanaACero])
| termina_converge k :
    (k < n)%nat -> (forall j, (j < k)%nat -> sigue j) ->
    pasa k -> (reg_error (registro_de k) <? tol) = true ->
    termina n (Returns (iterate (S k)) (traza (S k)) true, [])
| termina_agotado :
    (forall j, (j < n)%nat -> sigue j) ->
    termina n (Returns (iterate n) (traza n) false, [MaximoDeIteraciones]).

End Iterates.

(** ** Callables used as test inputs

    What [lambdify] produces for the expressions of the test cases, applied to
    a Python float: the integer literals are converted exactly and [x**2] is
    the correctly rounded square. *)

(** [x**2 - 4] and its derivative [2*x]. *)
Definition f_sq4 (x : float) : float := x * x - 4.
Definition df_2x (x : float) : float := 2 * x.

(** [x**2], whose derivative [2*x] vanishes at 0. *)
Definition f_sq (x : float) : float := x * x.

(** [x**2 + 1], which has no real root; from 1 the first step lands on 0. *)
Definition f_sq1 (x : float) : float := x * x + 1.

(** Two constant callables, finite everywhere: a huge value over a
    derivative that just passes the guard. *)
Definition f_huge (_ : float) : float := 1e308.
Definition df_tiny (_ : float) : float := 1e-10.

(** The line [1e-10*x + 1e308] with its derivative [df_tiny]. *)
Definition f_line (x : float) : float := 1e-10 * x + 1e308.

(** ** The same function over the interpreter's state

    [iteraciones] is a Python list object: line 48 creates it, [append]
    changes it in place, and the returned tuple holds a reference to it.
    [print] writes to the process's standard output.  Here both are explicit:
    a [mundo] is the store of list objects together with everything printed
    so far, and a call is a function from the state it starts in to its
    outcome and the state it leaves. *)

Record mundo : Type := Mundo {
  objetos : list (list registro);   (* the list objects, by address *)
  salida : list aviso               (* standard output *)
}.

(** The address of a list object. *)
Definition ref : Type := nat.

(** [[]]: a new, empty list object at a fresh address. *)
Definition lista_nueva (w : mundo) : ref * mundo :=
  (length (objetos w), Mundo (objetos w ++ [[]]) (salida w)).

(** Changes the object at address [l] and no other. *)
Fixpoint modifica (l : ref) (g : list registro -> list registro)
    (os : list (list registro)) : list (list registro) :=
  match os, l with
  | [], _ => []
  | o :: os', O => g o :: os'
  | o :: os', S l' => o :: modifica l' g os'
  end.

(** [lista.append(r)], in place. *)
Definition append (l : ref) (r : registro) (w : mundo) : mundo :=
  Mundo (modifica l (fun o => o ++ [r]) (objetos w)) (salida w).

(** [print(...)]. *)
Definition print (a : aviso) (w : mundo) : mundo :=
  Mundo (objetos w) (salida w ++ [a]).

(** The contents of the list object at address [l]. *)
Definition contenido (l : ref) (w : mundo) : list registro :=
  nth l (objetos w) [].

(** What a call hands back: the tuple, with the list by reference. *)
Inductive outcome_obj : Type :=
| ReturnsObj (x : float) (iteraciones : ref) (convergencia : bool)
| RaisesObj (e : Py.exn).

Fixpoint for_loop_obj (f_expr df_expr : float -> float) (tol : float)
    (restantes : nat) (i : Z) (x : float) (iteraciones : ref) (w : mundo)
    : outcome_obj * mundo :=
  match restantes with
  | O => (ReturnsObj x iteraciones false, print MaximoDeIteraciones w)
  | S restantes' =>
      let f_x := f_expr x in
      let df_x := df_expr x in
      if abs df_x <? DERIVADA_MINIMA then
        (ReturnsObj x iteraciones false, print DerivadaCercanaACero w)
      else
        match Py.truediv f_x df_x with
        | inl e => (RaisesObj e, w)
        | inr q =>
            let x_next := x - q in
            let error := abs (x_next - x) in
            let w := append iteraciones ((i + 1)%Z, x, f_x, error) w in
            let x := x_next in
            if error <? tol then (ReturnsObj x iteraciones true, w)
            else for_loop_obj f_expr df_expr tol restantes' (i + 1)%Z x
                   iteraciones w
        end
  end.

Definition newton_raphson_obj (f_expr df_expr : float -> float) (x0 : float)
    (tol : float) (max_iter : Z) (w : mundo) : outcome_obj * mundo :=
  let x := x0 in
  let '(iteraciones, w) := lista_nueva w in
  for_loop_obj f_expr df_expr tol (Py.range_len max_iter) 0%Z x iteraciones w.

(** ** The series [graficar_funcion] draws in its convergence panel *)

(** [range(a, b)] as the list of its values. *)
Definition py_range (a b : Z) : list Z :=
  map (fun k => (a + Z.of_nat k)%Z) (seq 0 (Z.to_nat (b - a))).

(** [x_valores = [x for _, x, _, _ in iteraciones]]. *)
Definition x_valores (iteraciones : list registro) : list float :=
  map reg_x iteraciones.

(** [errores = [error for _, _, _, error in iteraciones]]. *)
Definition errores (iteraciones : list registro) : list float :=
  map reg_error iteraciones.

(** The abscissas handed to [semilogy]: [range(1, len(errores)+1)]. *)
Definition eje_iteraciones (iteraciones : list registro) : list Z :=
  py_range 1 (Z.of_nat (length (errores iteraciones)) + 1).

(** ** Renumbering a trace

    The records of a call restarted after [d] passes, numbered as the passes
    of one long call. *)
Definition desplaza (d : Z) (r : registro) : registro :=
  let '(k, x, fx, e) := r in ((k + d)%Z, x, fx, e).

(** ** Facts about binary64 comparisons *)

Lemma Prim2SF_zero : Prim2SF 0 = S754_zero false.
Proof. reflexivity. Qed.

(** A float that compares equal to zero is one of the two zeros. *)
Lemma eqb_zero_inv (d : float) :
  (d =? 0) = true -> exists s, Prim2SF d = S754_zero s.
Proof.
  rewrite eqb_spec, Prim2SF_zero. unfold SFeqb, SFcompare.
  destruct (Prim2SF d) as [s|s| |s m e]; try discriminate.
  - now exists s.
  - destruct s; discriminate.
  - destruct s; discriminate.
Qed.

(** A zero divisor, of either sign, is below the guard's threshold. *)
Lemma zero_below_guard (d : float) :
  (d =? 0) = true -> (abs d <? DERIVADA_MINIMA) = true.
Proof.
  intros Hz. destruct (eqb_zero_inv d Hz) as [s Hs].
  rewrite ltb_spec, abs_spec, Hs. vm_compute. reflexivity.
Qed.

(** The guard catches every divisor that would make the division raise. *)
Lemma guard_excludes_zero (d : float) :
  (abs d <? DERIVADA_MINIMA) = false -> (d =? 0) = false.
Proof.
  intros Hg. destruct (d =? 0) eqn:Hz; [|reflexivity].
  rewrite (zero_below_guard d Hz) in Hg. discriminate.
Qed.

Lemma truediv_guarded (a d : float) :
  (abs d <? DERIVADA_MINIMA) = false -> Py.truediv a d = inr (a / d).
Proof.
  intros Hg. unfold Py.truediv. now rewrite (guard_excludes_zero d Hg).
Qed.

Lemma is_nan_SF (a : float) :
  is_nan a = false -> Prim2SF a <> S754_nan.
Proof.
  unfold is_nan. rewrite eqb_spec. intros H E. rewrite E in H. discriminate.
Qed.

Lemma SF_not_nan_is_nan (a : float) :
  Prim2SF a <> S754_nan -> is_nan a = false.
Proof.
  unfold is_nan. rewrite eqb_spec. unfold SFeqb, SFcompare. intros H.
  destruct (Prim2SF a) as [s|s| |s m e]; try congruence.
  - reflexivity.
  - destruct s; reflexivity.
  - destruct s; rewrite Z.compare_refl;
      change (PosDef.Pos.compare_cont Eq m m) with (Pos.compare m m);
      rewrite Pos.compare_refl; reflexivity.
Qed.

(** On numbers, "not below" is "at or above". *)
Lemma ltb_false_leb (a b : float) :
  is_nan a = false -> is_nan b = false ->
  (a <? b) = false -> (b <=? a) = true.
Proof.
  intros Ha Hb. apply is_nan_SF in Ha. apply is_nan_SF in Hb.
  rewrite ltb_spec, leb_spec. unfold SFltb, SFleb, SFcompare.
  destruct (Prim2SF a) as [sa|sa| |sa ma ea]; try congruence;
    destruct (Prim2SF b) as [sb|sb| |sb mb eb]; try congruence;
    try (destruct sa); try (destruct sb); try discriminate; try reflexivity.
  - rewrite (Z.compare_antisym ea eb).
    destruct (ea ?= eb)%Z; simpl; try discriminate; try reflexivity.
    pose proof (Pos.compare_cont_antisym ma mb Eq) as A. simpl in A.
    rewrite <- A.
    destruct (Pos.compare_cont Eq ma mb); simpl;
      try discriminate; reflexivity.
  - rewrite (Z.compare_antisym ea eb).
    destruct (ea ?= eb)%Z; simpl; try discriminate; try reflexivity.
    pose proof (Pos.compare_cont_antisym ma mb Eq) as A. simpl in A.
    rewrite <- A.
    destruct (Pos.compare_cont Eq ma mb); simpl;
      try discriminate; reflexivity.
Qed.



(** ** One pass of the loop *)

Section Loop.

Variables (f df : float -> float) (x0 tol : float).

#[local] Abbreviation step := (newton_step f df).
#[local] Abbreviation x_ := (iterate f df x0).
#[local] Abbreviation reg := (registro_de f df x0).
#[local] Abbreviation tr_ := (traza f df x0).

Lemma iterate_S (k : nat) : x_ (S k) = step (x_ k).
Proof. reflexivity. Qed.

Lemma traza_S (m : nat) : tr_ (S m) = tr_ m ++ [reg m].
Proof.
  unfold traza. rewrite seq_S, map_app. reflexivity.
Qed.

Lemma traza_length (m : nat) : length (tr_ m) = m.
Proof. unfold traza. now rewrite length_map, length_seq. Qed.

Lemma traza_nth (m k : nat) :
  (k < m)%nat -> nth_error (tr_ m) k = Some (reg k).
Proof.
  intros Hk. unfold traza.
  rewrite nth_error_map, nth_error_seq.
  destruct (Nat.ltb_spec k m); [reflexivity | lia].
Qed.

Lemma traza_nth_inv (m k : nat) (r : registro) :
  nth_error (tr_ m) k = Some r -> (k < m)%nat /\ r = reg k.
Proof.
  intros H.
  assert (Hk : (k < m)%nat).
  { rewrite <- (traza_length m). apply nth_error_Some. congruence. }
  split; [exact Hk|]. rewrite (traza_nth m k Hk) in H. congruence.
Qed.

(** A pass that meets a small derivative stops the call. *)
Lemma for_loop_abort n i x tr :
  (abs (df x) <? DERIVADA_MINIMA) = true ->
  for_loop f df tol (S n) i x tr
  = (Returns x tr false, [DerivadaCercanaACero]).
Proof. intros Hg. simpl. now rewrite Hg. Qed.

(** A pass that gets past the guard divides without raising, appends its
    record and either stops on a small step or goes on from [x_next]. *)
Lemma for_loop_pass n i x tr :
  (abs (df x) <? DERIVADA_MINIMA) = false ->
  let x_next := step x in
  let r := ((i + 1)%Z, x, f x, abs (x_next - x)) in
  for_loop f df tol (S n) i x tr
  = if reg_error r <? tol then (Returns x_next (tr ++ [r]) true, [])
    else for_loop f df tol n (i + 1)%Z x_next (tr ++ [r]).
Proof.
  intros Hg. simpl. rewrite Hg, (truediv_guarded _ _ Hg). reflexivity.
Qed.

(** The loop entered at pass [m], all earlier passes having gone on, ends
    in one of the three ways. *)
Lemma for_loop_termina n : forall m,
  (forall j, (j < m)%nat -> sigue f df x0 tol j) ->
  termina f df x0 tol (m + n)
    (for_loop f df tol n (Z.of_nat m) (x_ m) (tr_ m)).
Proof.
  induction n as [|n IH]; intros m Hprev.
  - rewrite Nat.add_0_r. simpl. now apply termina_agotado.
  - destruct (abs (df (x_ m)) <? DERIVADA_MINIMA) eqn:Hg.
    + rewrite (for_loop_abort _ _ _ _ Hg).
      apply termina_derivada; [lia | exact Hprev | exact Hg].
    + rewrite (for_loop_pass _ _ _ _ Hg). cbv zeta.
      change (Z.of_nat m + 1, x_ m, f (x_ m), abs (step (x_ m) - x_ m))%Z
        with (reg m).
      rewrite <- traza_S, <- iterate_S.
      destruct (reg_error (reg m) <? tol) eqn:He.
      * apply termina_converge; [lia | exact Hprev | exact Hg | exact He].
      * replace (Z.of_nat m + 1)%Z with (Z.of_nat (S m)) by lia.
        replace (m + S n)%nat with (S m + n)%nat by lia.
        apply IH. intros j Hj.
        destruct (Nat.eq_dec j m) as [->|Hne].
        -- split; assumption.
        -- apply Hprev. lia.
Qed.

(** Every call ends in one of the three ways. *)
Lemma newton_raphson_termina (max_iter : Z) :
  termina f df x0 tol (Z.to_nat max_iter)
    (newton_raphson f df x0 tol max_iter).
Proof.
  unfold newton_raphson, Py.range_len.
  apply (for_loop_termina (Z.to_nat max_iter) 0).
  intros j Hj. lia.
Qed.

(** The way a call ends is fixed by the first pass that does not go on. *)
Lemma termina_functional n r1 r2 :
  termina f df x0 tol n r1 -> termina f df x0 tol n r2 -> r1 = r2.
Proof.
  assert (first : forall k k', 
    (forall j, (j < k)%nat -> sigue f df x0 tol j) ->
    ~ sigue f df x0 tol k' -> (k <= k')%nat).
  { intros k k' Hs Hn. destruct (Nat.le_gt_cases k k'); [assumption|].
    exfalso. apply Hn, Hs. assumption. }
  assert (no_abort : forall k,
    (abs (df (x_ k)) <? DERIVADA_MINIMA) = true -> ~ sigue f df x0 tol k).
  { intros k Hg [Hp _]. unfold pasa in Hp. congruence. }
  assert (no_conv : forall k,
    (reg_error (reg k) <? tol) = true -> ~ sigue f df x0 tol k).
  { intros k He [_ Hc]. congruence. }
  intros H1 H2.
  destruct H1 as [k1 Hk1 Hs1 Hg1 | k1 Hk1 Hs1 Hp1 He1 | Hs1];
    destruct H2 as [k2 Hk2 Hs2 Hg2 | k2 Hk2 Hs2 Hp2 He2 | Hs2].
  - assert (k1 = k2) as ->; [|reflexivity].
    apply Nat.le_antisymm; eauto.
  - assert (k1 = k2) as ->.
    { apply Nat.le_antisymm; eauto. }
    unfold pasa in Hp2. congruence.
  - exfalso. apply (no_abort k1 Hg1). apply Hs2. assumption.
  - assert (k1 = k2) as ->.
    { apply Nat.le_antisymm; eauto. }
    unfold pasa in Hp1. congruence.
  - assert (k1 = k2) as ->; [|reflexivity].
    apply Nat.le_antisymm; eauto.
  - exfalso. apply (no_conv k1 He1). apply Hs2. assumption.
  - exfalso. apply (no_abort k2 Hg2). apply Hs1. assumption.
  - exfalso. apply (no_conv k2 He2). apply Hs1. assumption.
  - reflexivity.
Qed.

End Loop.

(** ** What a finished call looks like *)

Section Shape.

Variables (f df : float -> float) (x0 tol : float).

#[local] Abbreviation sx := (iterate f df x0).
#[local] Abbreviation sreg := (registro_de f df x0).
#[local] Abbreviation str := (traza f df x0).

(** Splits the five-part conclusion of [termina_shape], closing the parts
    that hold by computation or arithmetic. *)
Ltac split_shape :=
  split; [reflexivity | split; [reflexivity | split; [lia | split]]].

(** Facts shared by the three endings: the trace is the list of the records
    of the passes that completed, the returned value is the iterate that
    follows them, every recorded pass got past the guard, and every recorded
    pass but the last went on. *)
Lemma termina_shape n root tr c out :
  termina f df x0 tol n (Returns root tr c, out) ->
  tr = str (length tr) /\ root = sx (length tr) /\ (length tr <= n)%nat /\
  (forall k, (k < length tr)%nat -> pasa f df x0 k) /\
  (forall k, (S k < length tr)%nat -> sigue f df x0 tol k).
Proof.
  intros T.
  inversion T as [k Hk Hs Hg | k Hk Hs Hp He | Hs]; subst;
    rewrite !traza_length.
  - split_shape.
    + intros j Hj. now apply Hs.
    + intros j Hj. apply Hs. lia.
  - split_shape.
    + intros j Hj. destruct (Nat.eq_dec j k) as [->|Hne]; [exact Hp|].
      apply Hs. lia.
    + intros j Hj. apply Hs. lia.
  - split_shape.
    + intros j Hj. now apply Hs.
    + intros j Hj. apply Hs. lia.
Qed.

(** The flag and the printed line go together. *)
Lemma termina_flag n root tr c out :
  termina f df x0 tol n (Returns root tr c, out) ->
  (c = true /\ out = [] /\ tr <> []) \/
  (c = false /\ out = [DerivadaCercanaACero] /\
   (abs (df root) <? DERIVADA_MINIMA) = true /\ (length tr < n)%nat) \/
  (c = false /\ out = [MaximoDeIteraciones] /\ length tr = n).
Proof.
  intros T.
  inversion T as [k Hk Hs Hg | k Hk Hs Hp He | Hs]; subst;
    rewrite ?traza_length.
  - right; left. repeat split; assumption.
  - left. split; [reflexivity | split; [reflexivity|]].
    rewrite traza_S. intros H. apply app_eq_nil in H as [_ H]. discriminate.
  - right; right. repeat split; reflexivity.
Qed.

(** The last record of a call that converged, and of one that did not. *)
Lemma termina_last n root pre r c out :
  termina f df x0 tol n (Returns root (pre ++ [r]) c, out) ->
  (reg_error r <? tol) = c.
Proof.
  intros T. remember (Returns root (pre ++ [r]) c, out) as res eqn:E.
  destruct T as [k Hk Hs Hg | k Hk Hs Hp He | Hs];
    injection E as _ Htr <- _.
  - destruct k as [|k].
    + destruct pre; discriminate.
    + rewrite traza_S in Htr. apply app_inj_tail in Htr as [_ <-].
      apply Hs. lia.
  - rewrite traza_S in Htr. apply app_inj_tail in Htr as [_ <-]. exact He.
  - destruct n as [|n].
    + destruct pre; discriminate.
    + rewrite traza_S in Htr. apply app_inj_tail in Htr as [_ <-].
      apply Hs. lia.
Qed.

End Shape.

(** A pass that was reached and got past the guard left its record. *)
Lemma termina_completed (f df : float -> float) (x0 tol : float)
    (n : nat) root tr c out (k : nat) :
  termina f df x0 tol n (Returns root tr c, out) ->
  (k < n)%nat -> (forall j, (j < k)%nat -> sigue f df x0 tol j) ->
  pasa f df x0 k -> (k < length tr)%nat.
Proof.
  intros T Hk Hs Hp.
  remember (Returns root tr c, out) as res eqn:E.
  destruct T as [k0 Hk0 Hs0 Hg0 | k0 Hk0 Hs0 Hp0 He0 | Hs0];
    injection E as _ <- _ _; rewrite traza_length.
  - destruct (Nat.lt_trichotomy k k0) as [Hlt | [-> | Hgt]]; [exact Hlt | |].
    + unfold pasa in Hp. congruence.
    + destruct (Hs k0 Hgt) as [Hp0 _]. unfold pasa in Hp0. congruence.
  - destruct (Nat.le_gt_cases k k0) as [Hle | Hgt]; [lia|].
    destruct (Hs k0 Hgt) as [_ He]. congruence.
  - exact Hk.
Qed.

(** Every call returns, and the run it returns is one of the three endings. *)
Lemma newton_raphson_returns (f df : float -> float) (x0 tol : float)
    (max_iter : Z) :
  exists root tr c out,
    newton_raphson f df x0 tol max_iter = (Returns root tr c, out) /\
    termina f df x0 tol (Z.to_nat max_iter) (Returns root tr c, out).
Proof.
  pose proof (newton_raphson_termina f df x0 tol max_iter) as T.
  destruct (newton_raphson f df x0 tol max_iter) as [[root tr c | e] out].
  - exists root, tr, c, out. split; [reflexivity | exact T].
  - inversion T.
Qed.

(** ** The properties *)

(** C1. For a non-negative [max_iter] (in particular a positive one) and any
    [tol], the call returns a triple whose trace has at most [max_iter]
    records; when [convergencia] is true the trace is non-empty and the error
    of its last record is strictly below [tol]; when it is false, either the
    small-derivative abort fired (its line was printed, and the derivative at
    the returned value is below the threshold) or the trace has exactly
    [max_iter] records. *)
Theorem newton_raphson_result_invariant (f df : float -> float)
    (x0 tol : float) (max_iter : Z) :
  (0 <= max_iter)%Z ->
  exists root tr c out,
    newton_raphson f df x0 tol max_iter = (Returns root tr c, out) /\
    (Z.of_nat (length tr) <= max_iter)%Z /\
    (c = true ->
     exists pre r, tr = pre ++ [r] /\ (reg_error r <? tol) = true) /\
    (c = false ->
     (out = [DerivadaCercanaACero] /\
      (abs (df root) <? DERIVADA_MINIMA) = true) \/
     Z.of_nat (length tr) = max_iter).
Proof.
  intros Hmax.
  destruct (newton_raphson_returns f df x0 tol max_iter)
    as (root & tr & c & out & E & T).
  exists root, tr, c, out. split; [exact E|].
  destruct (termina_shape _ _ _ _ _ _ _ _ _ T) as (Htr & _ & Hlen & _ & _).
  split; [lia|]. split.
  - intros ->. destruct tr as [|r0 tr'] using rev_ind.
    + destruct (termina_flag _ _ _ _ _ _ _ _ _ T)
        as [(_ & _ & Hne) | [[Hc _] | [Hc _]]]; try discriminate.
      now elim Hne.
    + exists tr', r0. split; [reflexivity|].
      exact (termina_last _ _ _ _ _ _ _ _ _ _ T).
  - intros ->.
    destruct (termina_flag _ _ _ _ _ _ _ _ _ T)
      as [[Hc _] | [(_ & Ho & Hg & _) | (_ & _ & Hn)]]; try discriminate.
    + left. split; assumption.
    + right. lia.
Qed.

Lemma newton_raphson_result_invariant_witness :
  exists root tr c out,
    newton_raphson f_sq4 df_2x 1 1e-6 100 = (Returns root tr c, out) /\
    (Z.of_nat (length tr) <= 100)%Z /\
    (c = true ->
     exists pre r, tr = pre ++ [r] /\ (reg_error r <? 1e-6) = true) /\
    (c = false ->
     (out = [DerivadaCercanaACero] /\
      (abs (df_2x root) <? DERIVADA_MINIMA) = true) \/
     Z.of_nat (length tr) = 100%Z).
Proof.
  apply (newton_raphson_result_invariant f_sq4 df_2x 1 1e-6 100). lia.
Defined.

(** C2. Every pass that gets past the guard computes
    [x_next = x - f(x)/df(x)] and [error = |x_next - x|], appends the record
    [(i+1, x, f(x), error)] made of the values before the update and the
    error after it, and then either returns [x_next] as converged or goes on
    to the next pass from [x_next].  For the call as a whole: every pass
    that is reached and gets past the guard has its record in the returned
    trace, at its own position; records hold nothing else; each record's
    [x] is the [x_next] of the record before it, the first one's is [x0];
    and the value returned is the iterate that follows the last record. *)
Theorem newton_raphson_trace_records (f df : float -> float)
    (x0 tol : float) (max_iter : Z) :
  (forall n i x tr,
     (abs (df x) <? DERIVADA_MINIMA) = false ->
     let x_next := x - f x / df x in
     let error := abs (x_next - x) in
     let tr' := tr ++ [((i + 1)%Z, x, f x, error)] in
     for_loop f df tol (S n) i x tr
     = if error <? tol then (Returns x_next tr' true, [])
       else for_loop f df tol n (i + 1)%Z x_next tr') /\
  exists root tr c out,
    newton_raphson f df x0 tol max_iter = (Returns root tr c, out) /\
    root = iterate f df x0 (length tr) /\
    (forall k r, nth_error tr k = Some r ->
      let x := iterate f df x0 k in
      let x_next := x - f x / df x in
      let error := abs (x_next - x) in
      r = ((Z.of_nat k + 1)%Z, x, f x, error) /\
      iterate f df x0 (S k) = x_next) /\
    (forall k, (Z.of_nat k < max_iter)%Z ->
      (forall j, (j < k)%nat -> sigue f df x0 tol j) ->
      (abs (df (iterate f df x0 k)) <? DERIVADA_MINIMA) = false ->
      nth_error tr k = Some (registro_de f df x0 k)) /\
    (forall r, nth_error tr 0 = Some r -> reg_x r = x0) /\
    (forall k r r', nth_error tr k = Some r -> nth_error tr (S k) = Some r' ->
      reg_x r' = reg_x r - reg_fx r / df (reg_x r)).
Proof.
  split.
  { intros n i x tr Hg. exact (for_loop_pass f df tol n i x tr Hg). }
  destruct (newton_raphson_returns f df x0 tol max_iter)
    as (root & tr & c & out & E & T).
  exists root, tr, c, out. split; [exact E|].
  destruct (termina_shape _ _ _ _ _ _ _ _ _ T) as (Htr & Hroot & _).
  split; [exact Hroot|]. split; [|split; [|split]].
  - intros k r Hk. rewrite Htr in Hk.
    apply traza_nth_inv in Hk as [_ ->]. split; reflexivity.
  - intros k Hk Hs Hp.
    assert (Hlt : (k < length tr)%nat).
    { apply (termina_completed f df x0 tol (Z.to_nat max_iter)
               root tr c out k T); [lia | exact Hs | exact Hp]. }
    rewrite Htr. apply traza_nth. exact Hlt.
  - intros r Hk. rewrite Htr in Hk.
    apply traza_nth_inv in Hk as [_ ->]. reflexivity.
  - intros k r r' Hk Hk'. rewrite Htr in Hk, Hk'.
    apply traza_nth_inv in Hk as [_ ->].
    apply traza_nth_inv in Hk' as [_ ->]. reflexivity.
Qed.

(** C3. If the first [k] passes went on and pass [k] (one of the
    [max_iter] passes) meets [|df(x)| < 1e-10], the call returns at once: the
    value returned is the current iterate, the trace is the [k] records
    gathered so far with nothing added for pass [k], and [convergencia] is
    false.  The threshold is the constant [1e-10] whatever [tol] is. *)
Theorem newton_raphson_derivative_abort (f df : float -> float)
    (x0 tol : float) (max_iter : Z) (k : nat) :
  (Z.of_nat k < max_iter)%Z ->
  (forall j, (j < k)%nat -> sigue f df x0 tol j) ->
  (abs (df (iterate f df x0 k)) <? 1e-10) = true ->
  newton_raphson f df x0 tol max_iter
  = (Returns (iterate f df x0 k) (traza f df x0 k) false,
     [DerivadaCercanaACero]).
Proof.
  intros Hk Hs Hg.
  apply (termina_functional f df x0 tol (Z.to_nat max_iter)).
  - apply newton_raphson_termina.
  - apply termina_derivada; [lia | exact Hs | exact Hg].
Qed.

Lemma newton_raphson_derivative_abort_witness :
  newton_raphson f_sq1 df_2x 1 1e-6 100
  = (Returns 0 [(1%Z, 1, 2, 1)] false, [DerivadaCercanaACero]).
Proof.
  apply (newton_raphson_derivative_abort f_sq1 df_2x 1 1e-6 100 1).
  - lia.
  - intros j Hj. assert (j = 0)%nat as -> by lia.
    split; vm_compute; reflexivity.
  - vm_compute. reflexivity.
Defined.


(** C5. On [x**2 - 4] with derivative [2*x], from 1 with tolerance [1e-6]
    and at most 100 passes, the call converges to a value within [1e-6] of
    2, in at most 10 passes, and its first record is [(1, 1.0, -3.0, 1.5)]. *)
Theorem newton_raphson_sqrt4 :
  exists root tr,
    newton_raphson f_sq4 df_2x 1 1e-6 100 = (Returns root tr true, []) /\
    (abs (root - 2) <? 1e-6) = true /\
    (length tr <= 10)%nat /\
    nth_error tr 0 = Some (1%Z, 1, -3, 1.5).
Proof.
  eexists. eexists. split; [vm_compute; reflexivity|].
  split; [vm_compute; reflexivity|].
  split; [simpl; lia | reflexivity].
Qed.

(** C6. When the derivative at the starting point is exactly zero and at
    least one pass is allowed, the abort fires on the first pass: the call
    returns [convergencia = False] and an empty trace, for any [tol]. *)
Theorem newton_raphson_zero_derivative (f df : float -> float)
    (x0 tol : float) (max_iter : Z) :
  (df x0 =? 0) = true ->
  (0 < max_iter)%Z ->
  newton_raphson f df x0 tol max_iter
  = (Returns x0 [] false, [DerivadaCercanaACero]).
Proof.
  intros Hz Hmax. unfold newton_raphson, Py.range_len.
  destruct (Z.to_nat max_iter) as [|n] eqn:En; [lia|].
  apply for_loop_abort. apply zero_below_guard. exact Hz.
Qed.

Lemma newton_raphson_zero_derivative_witness :
  newton_raphson f_sq df_2x 0 1e-6 100
  = (Returns 0 [] false, [DerivadaCercanaACero]).
Proof.
  apply (newton_raphson_zero_derivative f_sq df_2x 0 1e-6 100).
  - vm_compute. reflexivity.
  - lia.
Defined.

(** C7. With [max_iter = 0] the loop body never runs: whatever the other
    arguments, the call returns [x0], an empty trace and
    [convergencia = False]. *)
Theorem newton_raphson_max_iter_zero (f df : float -> float)
    (x0 tol : float) :
  newton_raphson f df x0 tol 0
  = (Returns x0 [] false, [MaximoDeIteraciones]).
Proof. reflexivity. Qed.

(** C8. In the returned trace the record at position [k] (0-based) carries
    the index [k+1], and it is the record of pass [k].  There is exactly one
    record per completed pass: position [k] is filled if and only if pass
    [k] is one of the [max_iter] passes, every pass before it went on, and
    it got past the guard itself.  Pass by pass: a pass stopped by the guard
    appends nothing, and a pass that gets past it appends exactly one
    record, numbered [i+1]. *)
Theorem newton_raphson_indices (f df : float -> float)
    (x0 tol : float) (max_iter : Z) :
  (exists root tr c out,
    newton_raphson f df x0 tol max_iter = (Returns root tr c, out) /\
    (forall k r, nth_error tr k = Some r -> reg_iter r = (Z.of_nat k + 1)%Z) /\
    map reg_iter tr = map (fun k => (Z.of_nat k + 1)%Z) (seq 0 (length tr)) /\
    tr = map (registro_de f df x0) (seq 0 (length tr)) /\
    (forall k, (k < length tr)%nat <->
       (Z.of_nat k < max_iter)%Z /\
       (forall j, (j < k)%nat -> sigue f df x0 tol j) /\
       (abs (df (iterate f df x0 k)) <? DERIVADA_MINIMA) = false)) /\
  (forall n i x tr,
     (abs (df x) <? DERIVADA_MINIMA) = true ->
     for_loop f df tol (S n) i x tr
     = (Returns x tr false, [DerivadaCercanaACero])) /\
  (forall n i x tr,
     (abs (df x) <? DERIVADA_MINIMA) = false ->
     exists r x_next,
       reg_iter r = (i + 1)%Z /\
       (for_loop f df tol (S n) i x tr = (Returns x_next (tr ++ [r]) true, []) \/
        for_loop f df tol (S n) i x tr
        = for_loop f df tol n (i + 1)%Z x_next (tr ++ [r]))).
Proof.
  split; [|split].
  - destruct (newton_raphson_returns f df x0 tol max_iter)
      as (root & tr & c & out & E & T).
    exists root, tr, c, out. split; [exact E|].
    destruct (termina_shape _ _ _ _ _ _ _ _ _ T)
      as (Htr & _ & Hlen & Hp & Hs).
    split; [|split; [|split; [exact Htr|]]].
    + intros k r Hk. rewrite Htr in Hk.
      apply traza_nth_inv in Hk as [_ ->]. reflexivity.
    + rewrite Htr at 1. unfold traza. rewrite map_map. reflexivity.
    + intros k. split.
      * intros Hk. split; [lia|]. split.
        -- intros j Hj. apply Hs. lia.
        -- apply Hp. exact Hk.
      * intros (Hk & Hprev & Hg).
        apply (termina_completed f df x0 tol (Z.to_nat max_iter)
                 root tr c out k T); [lia | exact Hprev | exact Hg].
  - intros n i x tr Hg. apply for_loop_abort. exact Hg.
  - intros n i x tr Hg.
    exists ((i + 1)%Z, x, f x, abs (newton_step f df x - x)),
      (newton_step f df x).
    split; [reflexivity|].
    rewrite (for_loop_pass f df tol n i x tr Hg). cbv zeta.
    destruct (reg_error _ <? tol); [left | right]; reflexivity.
Qed.

(** *** The call over the interpreter's state *)

Lemma modifica_app (pre post : list (list registro)) (o : list registro)
    (g : list registro -> list registro) :
  modifica (length pre) g (pre ++ o :: post) = pre ++ g o :: post.
Proof.
  induction pre as [|p pre IH]; simpl; [reflexivity | now rewrite IH].
Qed.

Lemma contenido_app (pre post : list (list registro)) (o : list registro)
    (sal : list aviso) :
  contenido (length pre) (Mundo (pre ++ o :: post) sal) = o.
Proof.
  unfold contenido. simpl. rewrite app_nth2 by lia.
  now rewrite Nat.sub_diag.
Qed.

(** The loop over the store does to the list object what the loop over
    values does to the list: it leaves every other object alone, ends with
    the same value and flag, and adds the same line to the output. *)
Lemma for_loop_obj_refines (f df : float -> float) (tol : float)
    (pre post : list (list registro)) (n : nat) :
  forall i x tr0 sal root tr c out,
    for_loop f df tol n i x tr0 = (Returns root tr c, out) ->
    for_loop_obj f df tol n i x (length pre) (Mundo (pre ++ tr0 :: post) sal)
    = (ReturnsObj root (length pre) c, Mundo (pre ++ tr :: post) (sal ++ out)).
Proof.
  induction n as [|n IH]; intros i x tr0 sal root tr c out E.
  - simpl in E. injection E as <- <- <- <-. reflexivity.
  - destruct (abs (df x) <? DERIVADA_MINIMA) eqn:Hg.
    + rewrite (for_loop_abort f df tol n i x tr0 Hg) in E.
      injection E as <- <- <- <-. simpl. rewrite Hg. reflexivity.
    + rewrite (for_loop_pass f df tol n i x tr0 Hg) in E. cbv zeta in E.
      simpl. rewrite Hg, (truediv_guarded _ _ Hg).
      unfold append. cbn [objetos salida]. rewrite modifica_app.
      cbn [reg_error] in E. unfold newton_step in E.
      destruct (abs (x - f x / df x - x) <? tol).
      * injection E as <- <- <- <-. now rewrite app_nil_r.
      * apply IH. exact E.
Qed.

(** C9. The call is deterministic.  Stated over the interpreter's state,
    where a dependence on earlier calls could show: the value, the trace,
    the flag and the printed line are fixed by [f], [df], [x0], [tol] and
    [max_iter] alone.  From any state, the call returns that value and
    flag with a reference to a new list object holding that trace, changes
    no existing object, and prints that line.  So two calls with the same
    inputs, the second made in the state the first one left (or in any
    other state), return the same value and flag and two distinct list
    objects with the same records, the first of which the second call does
    not touch. *)
Theorem newton_raphson_deterministic (f df : float -> float)
    (x0 tol : float) (max_iter : Z) :
  exists root tr c out,
    newton_raphson f df x0 tol max_iter = (Returns root tr c, out) /\
    (forall w,
       newton_raphson_obj f df x0 tol max_iter w
       = (ReturnsObj root (length (objetos w)) c,
          Mundo (objetos w ++ [tr]) (salida w ++ out))) /\
    (forall w1 w1' r1 r2 w2 w2',
       newton_raphson_obj f df x0 tol max_iter w1 = (r1, w2) ->
       newton_raphson_obj f df x0 tol max_iter w1' = (r2, w2') ->
       exists l1 l2,
         r1 = ReturnsObj root l1 c /\ r2 = ReturnsObj root l2 c /\
         contenido l1 w2 = tr /\ contenido l2 w2' = tr /\
         salida w2 = salida w1 ++ out /\ salida w2' = salida w1' ++ out) /\
    (forall w1 r1 w2 r2 w3,
       newton_raphson_obj f df x0 tol max_iter w1 = (r1, w2) ->
       newton_raphson_obj f df x0 tol max_iter w2 = (r2, w3) ->
       exists l1 l2,
         r1 = ReturnsObj root l1 c /\ r2 = ReturnsObj root l2 c /\
         l1 <> l2 /\
         contenido l1 w2 = tr /\ contenido l1 w3 = tr /\
         contenido l2 w3 = tr /\
         (forall l, (l < length (objetos w1))%nat ->
            contenido l w3 = contenido l w1)).
Proof.
  destruct (newton_raphson_returns f df x0 tol max_iter)
    as (root & tr & c & out & E & _).
  exists root, tr, c, out. split; [exact E|].
  assert (Hobj : forall w,
     newton_raphson_obj f df x0 tol max_iter w
     = (ReturnsObj root (length (objetos w)) c,
        Mundo (objetos w ++ [tr]) (salida w ++ out))).
  { intros [os sal]. unfold newton_raphson_obj, lista_nueva.
    cbn [objetos salida].
    exact (for_loop_obj_refines f df tol os [] _ _ _ _ _ _ _ _ _ E). }
  split; [exact Hobj|]. split.
  - intros w1 w1' r1 r2 w2 w2' E1 E2.
    rewrite Hobj in E1, E2.
    injection E1 as <- <-. injection E2 as <- <-.
    exists (length (objetos w1)), (length (objetos w1')).
    split; [reflexivity|]. split; [reflexivity|].
    split; [apply contenido_app|]. split; [apply contenido_app|].
    split; reflexivity.
  - intros w1 r1 w2 r2 w3 E1 E2.
    rewrite Hobj in E1. injection E1 as <- <-.
    rewrite Hobj in E2. injection E2 as <- <-.
    cbn [objetos salida].
    exists (length (objetos w1)), (length (objetos w1 ++ [tr])).
    split; [reflexivity|]. split; [reflexivity|].
    split; [rewrite length_app; simpl; lia|].
    split; [apply contenido_app|].
    split; [rewrite <- app_assoc; apply contenido_app|].
    split; [apply contenido_app|].
    intros l Hl. unfold contenido. cbn [objetos].
    rewrite <- app_assoc. now rewrite app_nth1 by exact Hl.
Qed.

(** C10, as stated, fails on binary64: with the constant callables
    [f_huge] and [df_tiny] the first step overflows to an infinity, the
    second step is [inf - inf], and the second of three records has a NaN
    error, which is not [>= tol]. *)
Lemma newton_raphson_nan_error_before_last :
  exists root tr c out r,
    (0 <? 1e-6) = true /\ (0 < 3)%Z /\
    newton_raphson f_huge df_tiny 0 1e-6 3 = (Returns root tr c, out) /\
    (2 < length tr)%nat /\ nth_error tr 1 = Some r /\
    (reg_error r <? 1e-6) = false /\
    (1e-6 <=? reg_error r) = false.
Proof.
  exists neg_infinity,
    [(1%Z, 0, 1e308, infinity); (2%Z, neg_infinity, 1e308, nan);
     (3%Z, neg_infinity, 1e308, nan)],
    false, [MaximoDeIteraciones], (2%Z, neg_infinity, 1e308, nan).
  split; [vm_compute; reflexivity|].
  split; [lia|].
  split; [vm_compute; reflexivity|].
  split; [simpl; lia|].
  split; [reflexivity|].
  split; vm_compute; reflexivity.
Qed.

(** The same happens on a line with its true derivative. *)
Example newton_raphson_line_overflow :
  newton_raphson f_line df_tiny 0 1e-6 3
  = (Returns nan
       [(1%Z, 0, 1e308, infinity); (2%Z, neg_infinity, neg_infinity, nan);
        (3%Z, nan, nan, nan)]
       false, [MaximoDeIteraciones]).
Proof. vm_compute. reflexivity. Qed.

(** C10, amended. In the returned trace every record but the last has an
    error that is not below [tol] (the test [error < tol] was false), which
    is [error >= tol] whenever the error and [tol] are numbers; and the last
    record has an error below [tol] exactly when [convergencia] is true. *)
Theorem newton_raphson_errors_before_last (f df : float -> float)
    (x0 tol : float) (max_iter : Z) :
  exists root tr c out,
    newton_raphson f df x0 tol max_iter = (Returns root tr c, out) /\
    (forall k r, (S k < length tr)%nat -> nth_error tr k = Some r ->
       (reg_error r <? tol) = false /\
       (is_nan (reg_error r) = false -> is_nan tol = false ->
        (tol <=? reg_error r) = true)) /\
    (c = true <->
     exists pre r, tr = pre ++ [r] /\ (reg_error r <? tol) = true).
Proof.
  destruct (newton_raphson_returns f df x0 tol max_iter)
    as (root & tr & c & out & E & T).
  exists root, tr, c, out. split; [exact E|].
  destruct (termina_shape _ _ _ _ _ _ _ _ _ T) as (Htr & _ & _ & _ & Hs).
  split.
  - intros k r Hlt Hk. rewrite Htr in Hk.
    apply traza_nth_inv in Hk as [_ ->].
    destruct (Hs k Hlt) as [_ He]. split; [exact He|].
    intros Hn Ht. apply ltb_false_leb; assumption.
  - split.
    + intros ->. destruct tr as [|r0 tr'] using rev_ind.
      * destruct (termina_flag _ _ _ _ _ _ _ _ _ T)
          as [(_ & _ & Hne) | [[Hc _] | [Hc _]]]; try discriminate.
        now elim Hne.
      * exists tr', r0. split; [reflexivity|].
        exact (termina_last _ _ _ _ _ _ _ _ _ _ T).
    + intros (pre & r & -> & He).
      rewrite (termina_last _ _ _ _ _ _ _ _ _ _ T) in He. exact He.
Qed.

(** ** Further facts about binary64 *)

Lemma Prim2SF_inj (a b : float) : Prim2SF a = Prim2SF b -> a = b.
Proof.
  intros H. rewrite <- (SF2Prim_Prim2SF a), <- (SF2Prim_Prim2SF b).
  now rewrite H.
Qed.



(** An absolute value is never below zero. *)
Lemma abs_not_negative (v : float) : (abs v <? 0) = false.
Proof.
  rewrite ltb_spec, abs_spec, Prim2SF_zero.
  destruct (Prim2SF v) as [s|s| |s m e]; reflexivity.
Qed.

(** Only a positive bound has an absolute value below it. *)
Lemma abs_below_positive (v t : float) :
  (abs v <? t) = true -> (0 <? t) = true.
Proof.
  rewrite !ltb_spec, abs_spec, Prim2SF_zero. unfold SFltb, SFcompare.
  destruct (Prim2SF v) as [s|s| |s m e]; simpl;
    destruct (Prim2SF t) as [st|st| |st mt et]; simpl;
    try discriminate; try (destruct st; simpl; congruence).
Qed.




(** ** Edge behaviour of [newton_raphson] *)

(** X1. A negative [max_iter] is not rejected: [range] of a non-positive
    bound is empty, so the call returns [x0], an empty trace and
    [convergencia = False] after printing the exhaustion line. *)
Theorem newton_raphson_nonpositive_max_iter (f df : float -> float)
    (x0 tol : float) (max_iter : Z) :
  (max_iter <= 0)%Z ->
  newton_raphson f df x0 tol max_iter
  = (Returns x0 [] false, [MaximoDeIteraciones]).
Proof.
  intros H. unfold newton_raphson, Py.range_len.
  replace (Z.to_nat max_iter) with 0%nat by lia. reflexivity.
Qed.

Lemma newton_raphson_nonpositive_max_iter_witness :
  newton_raphson f_sq4 df_2x 1 1e-6 (-5)
  = (Returns 1 [] false, [MaximoDeIteraciones]).
Proof.
  apply (newton_raphson_nonpositive_max_iter f_sq4 df_2x 1 1e-6 (-5)). lia.
Defined.

(** X2. No recorded error is negative: each is an absolute value, so it is
    never below zero, and it is at least zero whenever it is a number. *)
Theorem newton_raphson_errors_nonnegative (f df : float -> float)
    (x0 tol : float) (max_iter : Z) :
  exists root tr c out,
    newton_raphson f df x0 tol max_iter = (Returns root tr c, out) /\
    Forall (fun r =>
      (reg_error r <? 0) = false /\
      (is_nan (reg_error r) = false -> (0 <=? reg_error r) = true)) tr.
Proof.
  destruct (newton_raphson_returns f df x0 tol max_iter)
    as (root & tr & c & out & E & T).
  exists root, tr, c, out. split; [exact E|].
  destruct (termina_shape _ _ _ _ _ _ _ _ _ T) as (Htr & _).
  apply Forall_forall. intros r Hin.
  apply In_nth_error in Hin as [k Hk]. rewrite Htr in Hk.
  apply traza_nth_inv in Hk as [_ ->]. cbn [reg_error registro_de].
  split; [apply abs_not_negative|].
  intros Hn. apply ltb_false_leb; [exact Hn | reflexivity |].
  apply abs_not_negative.
Qed.

(** X3. A tolerance that is not positive (zero, negative or NaN) can never
    be met: the call reports [convergencia = False] whatever the function,
    ending either in the small-derivative abort or with all [max_iter]
    passes recorded. *)
Theorem newton_raphson_nonpositive_tol (f df : float -> float)
    (x0 tol : float) (max_iter : Z) :
  (0 <? tol) = false ->
  exists root tr out,
    newton_raphson f df x0 tol max_iter = (Returns root tr false, out) /\
    (out = [DerivadaCercanaACero] \/
     (out = [MaximoDeIteraciones] /\ length tr = Z.to_nat max_iter)).
Proof.
  intros Htol.
  pose proof (newton_raphson_termina f df x0 tol max_iter) as T.
  destruct T as [k Hk Hs Hg | k Hk Hs Hp He | Hs].
  - eexists. eexists. eexists. split; [reflexivity|]. left. reflexivity.
  - cbn [reg_error registro_de] in He.
    apply abs_below_positive in He. congruence.
  - eexists. eexists. eexists. split; [reflexivity|]. right.
    split; [reflexivity | apply traza_length].
Qed.

Lemma newton_raphson_nonpositive_tol_witness :
  exists root tr out,
    newton_raphson f_sq4 df_2x 1 0 4 = (Returns root tr false, out) /\
    (out = [DerivadaCercanaACero] \/
     (out = [MaximoDeIteraciones] /\ length tr = Z.to_nat 4)).
Proof.
  apply (newton_raphson_nonpositive_tol f_sq4 df_2x 1 0 4).
  vm_compute. reflexivity.
Defined.


(** X5. The value returned is one step past the last record: whenever the
    trace is not empty, the last record's error is [|root - x|] for that
    record's [x], and it is below [tol] exactly when [convergencia] is
    true.  The function value at the returned root is in no record. *)
Theorem newton_raphson_root_after_last_record (f df : float -> float)
    (x0 tol : float) (max_iter : Z) :
  exists root tr c out,
    newton_raphson f df x0 tol max_iter = (Returns root tr c, out) /\
    forall pre r, tr = pre ++ [r] ->
      root = reg_x r - reg_fx r / df (reg_x r) /\
      reg_error r = abs (root - reg_x r) /\
      (abs (root - reg_x r) <? tol) = c.
Proof.
  destruct (newton_raphson_returns f df x0 tol max_iter)
    as (root & tr & c & out & E & T).
  exists root, tr, c, out. split; [exact E|].
  destruct (termina_shape _ _ _ _ _ _ _ _ _ T) as (Htr & Hroot & _).
  intros pre r ->.
  pose proof (termina_last _ _ _ _ _ _ _ _ _ _ T) as Hlast.
  rewrite length_app in Htr, Hroot. simpl in Htr, Hroot.
  rewrite Nat.add_1_r in Htr, Hroot.
  rewrite traza_S in Htr. apply app_inj_tail in Htr as [_ Hr].
  assert (Herr : reg_error r = abs (root - reg_x r)).
  { rewrite Hr at 1 2. rewrite Hroot. reflexivity. }
  split; [|split; [exact Herr | rewrite <- Herr; exact Hlast]].
  rewrite Hr at 1 2 3. rewrite Hroot. reflexivity.
Qed.

(** ** Changing the iteration cap, and restarting *)

Section Cap.

Variables (f df : float -> float) (x0 tol : float).

(** An ending other than exhaustion is an ending under any larger cap. *)
Lemma termina_mono n m r :
  termina f df x0 tol n r -> snd r <> [MaximoDeIteraciones] ->
  (n <= m)%nat -> termina f df x0 tol m r.
Proof.
  intros T Hne Hnm.
  destruct T as [k Hk Hs Hg | k Hk Hs Hp He | Hs].
  - apply termina_derivada; [lia | exact Hs | exact Hg].
  - apply termina_converge; [lia | exact Hs | exact Hp | exact He].
  - now elim Hne.
Qed.

(** The records of the first [a + b] passes are those of the first [a]
    followed by those of the next [b]. *)
Lemma traza_app (a b : nat) :
  traza f df x0 (a + b)
  = traza f df x0 a ++ map (registro_de f df x0) (seq a b).
Proof. unfold traza. rewrite seq_app, map_app. reflexivity. Qed.

(** A call whose first [n] passes all went on has at least [n] records,
    unless its cap is smaller. *)
Lemma termina_at_least n m root tr c out :
  (forall j, (j < n)%nat -> sigue f df x0 tol j) -> (n <= m)%nat ->
  termina f df x0 tol m (Returns root tr c, out) -> (n <= length tr)%nat.
Proof.
  intros Hn Hnm T.
  remember (Returns root tr c, out) as res eqn:E.
  destruct T as [k Hk Hs Hg | k Hk Hs Hp He | Hs];
    injection E as _ <- _ _; rewrite traza_length.
  - destruct (Nat.le_gt_cases n k) as [|Hlt]; [assumption|].
    destruct (Hn k Hlt) as [Hp _]. unfold pasa in Hp. congruence.
  - destruct (Nat.le_gt_cases n k) as [|Hlt]; [lia|].
    destruct (Hn k Hlt) as [_ He']. congruence.
  - exact Hnm.
Qed.

End Cap.

Section Restart.

Variables (f df : float -> float) (x0 tol : float) (n : nat).

#[local] Abbreviation xn := (iterate f df x0 n).

Lemma iterate_add (k : nat) :
  iterate f df x0 (n + k) = iterate f df xn k.
Proof.
  induction k as [|k IH]; [now rewrite Nat.add_0_r|].
  rewrite Nat.add_succ_r. unfold iterate in *. simpl. now rewrite IH.
Qed.

Lemma registro_de_add (k : nat) :
  registro_de f df x0 (n + k)
  = desplaza (Z.of_nat n) (registro_de f df xn k).
Proof.
  unfold registro_de, desplaza.
  rewrite <- (iterate_add (S k)), <- (iterate_add k), Nat.add_succ_r.
  f_equal. f_equal. f_equal. lia.
Qed.

Lemma desplaza_error (d : Z) (r : registro) :
  reg_error (desplaza d r) = reg_error r.
Proof. destruct r as [[[k x] fx] e]. reflexivity. Qed.

Lemma traza_add (k : nat) :
  traza f df x0 (n + k)
  = traza f df x0 n ++ map (desplaza (Z.of_nat n)) (traza f df xn k).
Proof.
  rewrite traza_app. f_equal. unfold traza.
  induction k as [|k IH]; [reflexivity|].
  rewrite !seq_S, !map_app, IH. simpl. now rewrite registro_de_add.
Qed.

Lemma pasa_add (k : nat) :
  pasa f df x0 (n + k) <-> pasa f df xn k.
Proof. unfold pasa. now rewrite iterate_add. Qed.

Lemma sigue_add (k : nat) :
  sigue f df x0 tol (n + k) <-> sigue f df xn tol k.
Proof.
  unfold sigue. rewrite pasa_add, registro_de_add, desplaza_error.
  reflexivity.
Qed.

(** An ending of the call restarted at the [n]-th iterate is, renumbered,
    an ending of the one call with the two caps added, when the first [n]
    passes all went on. *)
Lemma termina_restart m root tr c out :
  (forall j, (j < n)%nat -> sigue f df x0 tol j) ->
  termina f df xn tol m (Returns root tr c, out) ->
  termina f df x0 tol (n + m)
    (Returns root (traza f df x0 n ++ map (desplaza (Z.of_nat n)) tr) c, out).
Proof.
  intros Hn T.
  assert (Hall : forall k, (forall j, (j < k)%nat -> sigue f df xn tol j) ->
                 forall j, (j < n + k)%nat -> sigue f df x0 tol j).
  { intros k Hk j Hj. destruct (Nat.lt_ge_cases j n) as [Hlt|Hge].
    - now apply Hn.
    - replace j with (n + (j - n))%nat by lia. apply sigue_add, Hk. lia. }
  remember (Returns root tr c, out) as res eqn:E.
  destruct T as [k Hk Hs Hg | k Hk Hs Hp He | Hs];
    injection E as <- <- <- <-.
  - rewrite <- traza_add, <- iterate_add.
    apply termina_derivada; [lia | now apply Hall |].
    now rewrite iterate_add.
  - rewrite <- traza_add, <- iterate_add, Nat.add_succ_r.
    apply termina_converge; [lia | now apply Hall | now apply pasa_add |].
    now rewrite registro_de_add, desplaza_error.
  - rewrite <- traza_add, <- iterate_add.
    apply termina_agotado. now apply Hall.
Qed.

End Restart.

(** X6. A call that did not run out of passes gives the same result under
    any larger cap: once the loop has converged or aborted, raising
    [max_iter] changes neither the value, the trace nor the flag. *)
Theorem newton_raphson_larger_cap_same_result (f df : float -> float)
    (x0 tol : float) (n m : Z) root tr c out :
  newton_raphson f df x0 tol n = (Returns root tr c, out) ->
  out <> [MaximoDeIteraciones] ->
  (n <= m)%Z ->
  newton_raphson f df x0 tol m = (Returns root tr c, out).
Proof.
  intros E Hne Hnm.
  pose proof (newton_raphson_termina f df x0 tol n) as T. rewrite E in T.
  apply (termina_functional f df x0 tol (Z.to_nat m)).
  - apply newton_raphson_termina.
  - apply (termina_mono f df x0 tol (Z.to_nat n)); [exact T | exact Hne | lia].
Qed.

Lemma newton_raphson_larger_cap_same_result_witness :
  newton_raphson f_sq1 df_2x 1 1e-6 100
  = (Returns 0 [(1%Z, 1, 2, 1)] false, [DerivadaCercanaACero]).
Proof.
  apply (newton_raphson_larger_cap_same_result f_sq1 df_2x 1 1e-6 2 100).
  - vm_compute. reflexivity.
  - discriminate.
  - lia.
Defined.

(** X7. Raising the cap only extends the trace: the trace returned under
    [max_iter = n] is a prefix of the one returned under any [m >= n]. *)
Theorem newton_raphson_trace_prefix (f df : float -> float)
    (x0 tol : float) (n m : Z) :
  (n <= m)%Z ->
  exists root_n tr_n c_n out_n root_m tr_m c_m out_m rest,
    newton_raphson f df x0 tol n = (Returns root_n tr_n c_n, out_n) /\
    newton_raphson f df x0 tol m = (Returns root_m tr_m c_m, out_m) /\
    tr_m = tr_n ++ rest.
Proof.
  intros Hnm.
  destruct (newton_raphson_returns f df x0 tol m)
    as (root_m & tr_m & c_m & out_m & Em & Tm).
  pose proof (newton_raphson_termina f df x0 tol n) as Tn.
  assert (same : forall r, snd r <> [MaximoDeIteraciones] ->
            termina f df x0 tol (Z.to_nat n) r ->
            r = (Returns root_m tr_m c_m, out_m)).
  { intros r Hne T. apply (termina_functional f df x0 tol (Z.to_nat m)).
    - apply (termina_mono f df x0 tol (Z.to_nat n)); [exact T | exact Hne | lia].
    - exact Tm. }
  destruct Tn as [k Hk Hs Hg | k Hk Hs Hp He | Hs].
  - exists (iterate f df x0 k), (traza f df x0 k), false,
      [DerivadaCercanaACero], root_m, tr_m, c_m, out_m, [].
    split; [reflexivity|]. split; [exact Em|].
    assert (Heq : (Returns (iterate f df x0 k) (traza f df x0 k) false,
                   [DerivadaCercanaACero])
                  = (Returns root_m tr_m c_m, out_m)).
    { apply same; [simpl; discriminate | now apply termina_derivada]. }
    injection Heq as _ <- _ _. now rewrite app_nil_r.
  - exists (iterate f df x0 (S k)), (traza f df x0 (S k)), true,
      [], root_m, tr_m, c_m, out_m, [].
    split; [reflexivity|]. split; [exact Em|].
    assert (Heq : (Returns (iterate f df x0 (S k)) (traza f df x0 (S k))
                     true, [])
                  = (Returns root_m tr_m c_m, out_m)).
    { apply same; [simpl; discriminate | now apply termina_converge]. }
    injection Heq as _ <- _ _. now rewrite app_nil_r.
  - pose proof (termina_at_least f df x0 tol (Z.to_nat n) (Z.to_nat m)
                  root_m tr_m c_m out_m Hs ltac:(lia) Tm) as Hlen.
    destruct (termina_shape _ _ _ _ _ _ _ _ _ Tm) as (Htr & _).
    exists (iterate f df x0 (Z.to_nat n)), (traza f df x0 (Z.to_nat n)), false,
      [MaximoDeIteraciones], root_m, tr_m, c_m, out_m,
      (map (registro_de f df x0)
         (seq (Z.to_nat n) (length tr_m - Z.to_nat n))).
    split; [reflexivity|]. split; [exact Em|].
    rewrite <- traza_app.
    replace (Z.to_nat n + (length tr_m - Z.to_nat n))%nat
      with (length tr_m) by lia.
    exact Htr.
Qed.

Lemma newton_raphson_trace_prefix_witness :
  exists root_n tr_n c_n out_n root_m tr_m c_m out_m rest,
    newton_raphson f_sq4 df_2x 1 1e-6 2 = (Returns root_n tr_n c_n, out_n) /\
    newton_raphson f_sq4 df_2x 1 1e-6 100
    = (Returns root_m tr_m c_m, out_m) /\
    tr_m = tr_n ++ rest.
Proof.
  apply (newton_raphson_trace_prefix f_sq4 df_2x 1 1e-6 2 100). lia.
Defined.

(** X8. Restarting composes.  If a call ran out of its [n] passes and a
    second call is started from the value it returned with [m] passes, the
    second call ends exactly as one call with [n + m] passes would: same
    value, same flag, same printed line, and the long call's trace is the
    first trace followed by the second with its indices moved up by [n]. *)
Theorem newton_raphson_restart (f df : float -> float) (x0 tol : float)
    (n m : Z) r1 t1 r2 t2 c2 out2 :
  (0 <= n)%Z -> (0 <= m)%Z ->
  newton_raphson f df x0 tol n = (Returns r1 t1 false, [MaximoDeIteraciones]) ->
  newton_raphson f df r1 tol m = (Returns r2 t2 c2, out2) ->
  newton_raphson f df x0 tol (n + m)
  = (Returns r2 (t1 ++ map (desplaza n) t2) c2, out2).
Proof.
  intros Hn Hm E1 E2.
  pose proof (newton_raphson_termina f df x0 tol n) as T1. rewrite E1 in T1.
  pose proof (newton_raphson_termina f df r1 tol m) as T2. rewrite E2 in T2.
  assert (H1 : r1 = iterate f df x0 (Z.to_nat n) /\
               t1 = traza f df x0 (Z.to_nat n) /\
               forall j, (j < Z.to_nat n)%nat -> sigue f df x0 tol j).
  { remember (Returns r1 t1 false, [MaximoDeIteraciones]) as res eqn:E.
    destruct T1 as [k Hk Hs Hg | k Hk Hs Hp He | Hs]; try discriminate.
    injection E as <- <-. repeat split; try reflexivity; apply Hs; assumption. }
  destruct H1 as (-> & -> & Hs).
  apply (termina_functional f df x0 tol (Z.to_nat (n + m))).
  - apply newton_raphson_termina.
  - replace (Z.to_nat (n + m)) with (Z.to_nat n + Z.to_nat m)%nat by lia.
    replace n with (Z.of_nat (Z.to_nat n)) at 3 by lia.
    apply termina_restart; assumption.
Qed.

Lemma newton_raphson_restart_witness :
  exists r2 t2 c2 out2,
    newton_raphson f_sq4 df_2x 2.5 1e-6 100 = (Returns r2 t2 c2, out2) /\
    newton_raphson f_sq4 df_2x 1 1e-6 (1 + 100)
    = (Returns r2 ([(1%Z, 1, -3, 1.5)] ++ map (desplaza 1) t2) c2, out2).
Proof.
  eexists. eexists. eexists. eexists.
  split; [vm_compute; reflexivity|].
  apply (newton_raphson_restart f_sq4 df_2x 1 1e-6 1 100 2.5).
  - lia.
  - lia.
  - vm_compute. reflexivity.
  - vm_compute. reflexivity.
Defined.

(** ** Starting on a root *)

Lemma is_finite_SF (x : float) :
  is_finite x = true ->
  (exists s, Prim2SF x = S754_zero s) \/
  (exists s m e, Prim2SF x = S754_finite s m e).
Proof.
  unfold is_finite, is_infinity. intros H.
  apply negb_true_iff, orb_false_iff in H as [Hn Hi].
  apply is_nan_SF in Hn. rewrite eqb_spec, abs_spec in Hi.
  destruct (Prim2SF x) as [s|s| |s m e].
  - left. now exists s.
  - destruct s; vm_compute in Hi; discriminate.
  - congruence.
  - right. now exists s, m, e.
Qed.

Lemma eqb_refl_not_nan (x : float) : is_nan x = false -> (x =? x) = true.
Proof. unfold is_nan. intros H. now apply negb_false_iff in H. Qed.

Lemma SFsub_same_finite (s : bool) (m : positive) (e : Z) :
  SF64sub (S754_finite s m e) (S754_finite s m e) = S754_zero false.
Proof.
  unfold SF64sub, SFsub. cbv zeta. rewrite Z.sub_diag. reflexivity.
Qed.

(** From a finite point where the function is exactly zero and the
    derivative is a number past the guard, the step does not move: the new
    point compares equal to the old one and the step size is [0.0]. *)
Lemma step_on_root (f df : float -> float) (x0 : float) :
  (f x0 =? 0) = true -> is_finite x0 = true ->
  (abs (df x0) <? DERIVADA_MINIMA) = false -> is_nan (df x0) = false ->
  (newton_step f df x0 =? x0) = true /\
  abs (newton_step f df x0 - x0) = 0.
Proof.
  intros Hf Hfin Hg Hd. unfold newton_step.
  destruct (eqb_zero_inv _ Hf) as [sf Ef].
  pose proof (guard_excludes_zero _ Hg) as Hnz.
  pose proof (is_nan_SF _ Hd) as Hnn.
  assert (Eq : exists sq, Prim2SF (f x0 / df x0) = S754_zero sq).
  { rewrite div_spec, Ef. rewrite eqb_spec, Prim2SF_zero in Hnz.
    unfold SF64div, SFdiv.
    destruct (Prim2SF (df x0)) as [s|s| |s m e]; try congruence.
    - discriminate.
    - eexists. reflexivity.
    - eexists. reflexivity. }
  destruct Eq as [sq Eq].
  destruct (is_finite_SF _ Hfin) as [[sx Ex] | (sx & mx & ex & Ex)].
  - assert (E1 : exists s1, Prim2SF (x0 - f x0 / df x0) = S754_zero s1).
    { rewrite sub_spec, Ex, Eq. destruct sx, sq; eexists; reflexivity. }
    destruct E1 as [s1 E1]. split.
    + rewrite eqb_spec, E1, Ex. reflexivity.
    + apply Prim2SF_inj. rewrite abs_spec, sub_spec, E1, Ex.
      destruct s1, sx; reflexivity.
  - assert (E1 : x0 - f x0 / df x0 = x0).
    { apply Prim2SF_inj. rewrite sub_spec, Ex, Eq. reflexivity. }
    rewrite E1. split.
    + apply eqb_refl_not_nan, SF_not_nan_is_nan. rewrite Ex. discriminate.
    + apply Prim2SF_inj.
      rewrite abs_spec, sub_spec, Ex, SFsub_same_finite. reflexivity.
Qed.

(** X9. Started on an exact root, the call converges on its first pass.
    If [f(x0)] is zero, [x0] is finite, the derivative there is a number
    past the guard, [tol] is positive and at least one pass is allowed, the
    call returns [convergencia = True] with the single record
    [(1, x0, f(x0), 0.0)] and a value that compares equal to [x0]. *)
Theorem newton_raphson_exact_root_start (f df : float -> float)
    (x0 tol : float) (max_iter : Z) :
  (f x0 =? 0) = true -> is_finite x0 = true ->
  (abs (df x0) <? DERIVADA_MINIMA) = false -> is_nan (df x0) = false ->
  (0 <? tol) = true -> (0 < max_iter)%Z ->
  exists root,
    newton_raphson f df x0 tol max_iter
    = (Returns root [(1%Z, x0, f x0, 0)] true, []) /\
    (root =? x0) = true.
Proof.
  intros Hf Hfin Hg Hd Htol Hmax.
  destruct (step_on_root f df x0 Hf Hfin Hg Hd) as [Hroot Herr].
  exists (newton_step f df x0). split; [|exact Hroot].
  unfold newton_raphson, Py.range_len.
  destruct (Z.to_nat max_iter) as [|n] eqn:En; [lia|].
  rewrite (for_loop_pass _ _ _ _ _ _ _ Hg). cbv zeta.
  cbn [reg_error]. rewrite Herr, Htol. reflexivity.
Qed.

Lemma newton_raphson_exact_root_start_witness :
  exists root,
    newton_raphson f_sq4 df_2x 2 1e-6 100
    = (Returns root [(1%Z, 2, f_sq4 2, 0)] true, []) /\
    (root =? 2) = true.
Proof.
  apply (newton_raphson_exact_root_start f_sq4 df_2x 2 1e-6 100).
  - vm_compute. reflexivity.
  - vm_compute. reflexivity.
  - vm_compute. reflexivity.
  - vm_compute. reflexivity.
  - vm_compute. reflexivity.
  - lia.
Defined.

(** ** The convergence panel of [graficar_funcion] *)

Lemma py_range_from_one (n : nat) :
  py_range 1 (Z.of_nat n + 1) = map (fun k => (Z.of_nat k + 1)%Z) (seq 0 n).
Proof.
  unfold py_range.
  replace (Z.to_nat (Z.of_nat n + 1 - 1)) with n by lia.
  apply map_ext. intros k. lia.
Qed.

(** X10. Drawn for a trace that [newton_raphson] returned, the convergence
    panel is consistent with the trace: the abscissas
    [range(1, len(errores)+1)] are the recorded iteration numbers, there is
    one abscissa per error, and each plotted error is the distance between
    two consecutive entries of [x_valores]. *)
Theorem graficar_funcion_series (f df : float -> float)
    (x0 tol : float) (max_iter : Z) :
  exists root tr c out,
    newton_raphson f df x0 tol max_iter = (Returns root tr c, out) /\
    eje_iteraciones tr = map reg_iter tr /\
    length (eje_iteraciones tr) = length (errores tr) /\
    (forall k x x' e,
       nth_error (x_valores tr) k = Some x ->
       nth_error (x_valores tr) (S k) = Some x' ->
       nth_error (errores tr) k = Some e ->
       e = abs (x' - x)).
Proof.
  destruct (newton_raphson_returns f df x0 tol max_iter)
    as (root & tr & c & out & E & T).
  exists root, tr, c, out. split; [exact E|].
  destruct (termina_shape _ _ _ _ _ _ _ _ _ T) as (Htr & _).
  assert (Heje : eje_iteraciones tr = map reg_iter tr).
  { unfold eje_iteraciones, errores. rewrite length_map, py_range_from_one.
    rewrite Htr at 2. unfold traza. rewrite map_map. reflexivity. }
  split; [exact Heje|]. split.
  - rewrite Heje. unfold errores. now rewrite !length_map.
  - unfold x_valores, errores. intros k x x' e Hx Hx' He.
    rewrite nth_error_map in Hx, Hx', He.
    destruct (nth_error tr k) as [r|] eqn:Hk; [|discriminate].
    destruct (nth_error tr (S k)) as [r'|] eqn:Hk'; [|discriminate].
    rewrite Htr in Hk, Hk'.
    apply traza_nth_inv in Hk as [_ ->].
    apply traza_nth_inv in Hk' as [_ ->].
    simpl in Hx, Hx', He. congruence.
Qed.
